(** * photoflow-sequence: the change-triggered photo sampler of [src/pages/Index.tsx]

    The development embeds the three functions that make up the sampler
    ([calculateImageDifference], [capturePhoto] with [savePhoto], and
    [toggleCapture]) together with the parts of the browser they talk to
    (typed-array reads, the interval timers of [window]), and proves the
    properties the specification states about them.  It goes on to runs of
    ticks, the second revision of [savePhoto], the numbers shown in the
    toasts, and the handlers of the camera preview. *)

From Stdlib Require Import String.
From Stdlib Require Import List Bool Arith ZArith QArith Lia Lqa.
From Stdlib Require Import Setoid Morphisms.
Import ListNotations.
Close Scope Q_scope.

(** ** JavaScript numbers

    The score is a JavaScript [number].  It is modelled by an exact rational
    extended with the two infinities and NaN; binary64 rounding of the
    quotient and the sign of zero are not modelled. *)

Module JS.

Inductive number : Type :=
| Finite (q : Q)
| Infinity (negative : bool)
| NaN.

Definition is_zero (q : Q) : bool := Qeq_bool q 0.
Definition is_neg (q : Q) : bool := negb (Qle_bool 0 q).

Definition of_nat (n : nat) : number := Finite (inject_Z (Z.of_nat n)).

(** [a / b] *)
Definition div (a b : number) : number :=
  match a, b with
  | NaN, _ | _, NaN => NaN
  | Infinity _, Infinity _ => NaN
  | Infinity s, Finite y => Infinity (xorb s (is_neg y))
  | Finite _, Infinity _ => Finite 0
  | Finite x, Finite y =>
      if is_zero y
      then (if is_zero x then NaN else Infinity (is_neg x))
      else Finite (x / y)%Q
  end.

(** [a * b] *)
Definition mul (a b : number) : number :=
  match a, b with
  | NaN, _ | _, NaN => NaN
  | Infinity s, Infinity t => Infinity (xorb s t)
  | Infinity s, Finite y => if is_zero y then NaN else Infinity (xorb s (is_neg y))
  | Finite x, Infinity t => if is_zero x then NaN else Infinity (xorb (is_neg x) t)
  | Finite x, Finite y => Finite (x * y)%Q
  end.

(** [a >= b]; every comparison with NaN is false *)
Definition geb (a b : number) : bool :=
  match a, b with
  | NaN, _ | _, NaN => false
  | Infinity s, Infinity t => negb s || t
  | Infinity s, Finite _ => negb s
  | Finite _, Infinity t => t
  | Finite x, Finite y => Qle_bool y x
  end.

(** [a < b] *)
Definition ltb (a b : number) : bool :=
  match a, b with
  | NaN, _ | _, NaN => false
  | Infinity s, Infinity t => s && negb t
  | Infinity s, Finite _ => s
  | Finite _, Infinity t => negb t
  | Finite x, Finite y => negb (Qle_bool y x)
  end.

(** Two numbers denote the same value (rationals up to [Qeq]). *)
Definition same (a b : number) : Prop :=
  match a, b with
  | Finite x, Finite y => (x == y)%Q
  | Infinity s, Infinity t => s = t
  | NaN, NaN => True
  | _, _ => False
  end.

(** A real number in the closed interval from [lo] to [hi]. *)
Definition within (lo hi : Q) (a : number) : Prop :=
  match a with
  | Finite x => (lo <= x)%Q /\ (x <= hi)%Q
  | _ => False
  end.

End JS.

(** ** Frames *)

(** [ImageData]: [data] is the flat RGBA byte array, four entries a pixel. *)
Record ImageData : Type := mkImageData {
  width : nat;
  height : nat;
  data : list Z
}.

(** What the platform guarantees of every [ImageData]: [data] has
    [4 * width * height] entries, each a byte. *)
Definition is_byte (v : Z) : bool := (0 <=? v)%Z && (v <=? 255)%Z.

Definition wf_ImageData (im : ImageData) : bool :=
  (length (data im) =? 4 * (width im * height im)) && forallb is_byte (data im).

Definition pixels (im : ImageData) : nat := width im * height im.

(** ** The difference metric *)

(** [data[i]] on a typed array: [None] is [undefined], read past the end. *)
Definition get (d : list Z) (i : nat) : option Z := nth_error d i.

(** [Math.abs(a - b) > 30].  With an [undefined] operand the difference is
    NaN, and [NaN > 30] is false. *)
Definition abs_diff_gt30 (a b : option Z) : bool :=
  match a, b with
  | Some x, Some y => (30 <? Z.abs (x - y))%Z
  | _, _ => false
  end.

(** The condition of the [if] in the loop body, at array index [i]. *)
Definition pixel_differs (data1 data2 : list Z) (i : nat) : bool :=
  let r1 := get data1 i in
  let g1 := get data1 (i + 1) in
  let b1 := get data1 (i + 2) in
  let r2 := get data2 i in
  let g2 := get data2 (i + 1) in
  let b2 := get data2 (i + 2) in
  abs_diff_gt30 r1 r2 || abs_diff_gt30 g1 g2 || abs_diff_gt30 b1 b2.

(** [for (let i = 0; i < data1.length; i += 4) { if (...) diffCount++ }],
    entered at index [i] with the count so far.  [fuel] bounds the number of
    iterations; [length data1 - i] is always enough ([loop_fuel]). *)
Fixpoint loop (data1 data2 : list Z) (fuel i diffCount : nat) : nat :=
  match fuel with
  | O => diffCount
  | S fuel' =>
      if i <? length data1
      then loop data1 data2 fuel' (i + 4)
             (if pixel_differs data1 data2 i then S diffCount else diffCount)
      else diffCount
  end.

Definition calculateImageDifference (current previous : ImageData) : JS.number :=
  let data1 := data current in
  let data2 := data previous in
  let totalPixels := JS.div (JS.of_nat (length data1)) (JS.Finite 4) in
  let diffCount := loop data1 data2 (length data1) 0 0 in
  JS.mul (JS.div (JS.of_nat diffCount) totalPixels) (JS.Finite 100).

(** ** The component and the window it runs in *)

(** The React state and refs of [Index], and the interval timers of
    [window] that run [capturePhoto]. *)
Record State : Type := mkState {
  isCapturing : bool;
  photoCount : nat;
  prevImageDataRef : option ImageData;
  captureIntervalRef : option Z;
  intervals : list Z;      (* window: handles of the armed interval timers *)
  lastHandle : Z           (* window: the last timer handle handed out *)
}.

Definition initial : State :=
  {| isCapturing := false; photoCount := 0; prevImageDataRef := None;
     captureIntervalRef := None; intervals := []; lastHandle := 0 |}.

(** What a call leaves behind outside the component. *)
Inductive Event : Type :=
| Toast (title : string) (destructive : bool)
| ConsoleError (message : string)
| Saved (frame : ImageData).   (* the JPEG of the frame is downloaded or written *)

(** ** [savePhoto], second revision, step by step *)

(** What the platform does to one call. *)
Record Platform : Type := mkPlatform {
  isNative : bool;       (* [Capacitor.isNativePlatform()] *)
  toDataURL : bool;      (* [canvas.toDataURL] returns *)
  writeFile : bool;      (* [Filesystem.writeFile] resolves *)
  getUri : bool;         (* [Filesystem.getUri] resolves *)
  fetchBlob : bool       (* [fetch(dataUrl)] and [.blob()] resolve *)
}.

(** The [async] [savePhoto]: the inner [catch] of the native branch logs and
    throws again, the outer [catch] logs and shows the error toast. *)
Definition savePhoto_async (p : Platform) (frame : ImageData) : list Event :=
  let failed := [ConsoleError "Error saving photo:"%string; Toast "Fehler"%string true] in
  if negb (toDataURL p) then failed
  else if isNative p then
    if negb (writeFile p)
    then ConsoleError "Error saving to filesystem:"%string :: failed
    else if negb (getUri p)
    then Saved frame :: ConsoleError "Error saving to filesystem:"%string :: failed
    else [Saved frame; Toast "Foto gespeichert"%string false]
  else
    if negb (fetchBlob p) then failed
    else [Saved frame; Toast "Foto gespeichert"%string false].

(** The second [savePhoto] gets through to its toast "Foto gespeichert". *)
Definition async_saved (p : Platform) : bool :=
  toDataURL p && (if isNative p then writeFile p && getUri p else fetchBlob p).

(** How one [savePhoto] ends.  The first four are the ways of the first
    revision, whose [try] is around the call of [toBlob] only; the callback
    runs later, outside that [try]. *)
Inductive SaveOutcome : Type :=
| SaveOk           (* the callback gets a blob, triggers the download, shows the toast *)
| SaveNoBlob       (* [toBlob] calls back with [null] *)
| SaveThrows       (* the call of [toBlob] throws; the [catch] reports it *)
| SaveCallbackThrows (clicked : bool)
    (* the callback throws, before or after [link.click()]; nothing catches it *)
| SaveAsync (p : Platform).
    (* second revision: what [savePhoto_async] does on [p] *)

(** What [capturePhoto] finds when the timer fires. *)
Record Env : Type := mkEnv {
  videoRef : bool;                 (* [videoRef.current] is set *)
  canvasRef : bool;                (* [canvasRef.current] is set *)
  context2d : bool;                (* [canvas.getContext('2d')] is not null *)
  imageData : option ImageData;    (* [getImageData]; [None] when it throws *)
  saving : SaveOutcome
}.

(** The Frame a tick obtains, if any. *)
Definition currentFrame (e : Env) : option ImageData :=
  if videoRef e && canvasRef e && context2d e then imageData e else None.

(** [savePhoto(canvas)], the canvas holding [frame]: what it leaves behind.
    Nothing is returned to the caller and no failure reaches it: a throw of
    the call is caught inside, and the callback of [toBlob] and the body of
    the [async] revision run after [capturePhoto] has gone on.  A throw in
    the callback is reported by nobody.  The description text of a toast is
    not modelled here. *)
Definition savePhoto (o : SaveOutcome) (frame : ImageData) : list Event :=
  match o with
  | SaveOk => [Saved frame; Toast "Foto gespeichert"%string false]
  | SaveNoBlob => []
  | SaveThrows => [ConsoleError "Error saving photo:"%string; Toast "Fehler"%string true]
  | SaveCallbackThrows clicked => if clicked then [Saved frame] else []
  | SaveAsync p => savePhoto_async p frame
  end.

(** [setPhotoCount(prev => prev + 1); prevImageDataRef.current = currentImageData] *)
Definition accepted (s : State) (currentImageData : ImageData) : State :=
  {| isCapturing := isCapturing s;
     photoCount := photoCount s + 1;
     prevImageDataRef := Some currentImageData;
     captureIntervalRef := captureIntervalRef s;
     intervals := intervals s;
     lastHandle := lastHandle s |}.

(** [capturePhoto]: one tick. *)
Definition capturePhoto (e : Env) (s : State) : State * list Event :=
  if negb (videoRef e) || negb (canvasRef e) then (s, [])
  else if negb (context2d e) then (s, [])
  else
    match imageData e with
    | None => (s, [])
    | Some currentImageData =>
        match prevImageDataRef s with
        | Some previous =>
            let difference := calculateImageDifference currentImageData previous in
            if JS.geb difference (JS.Finite 50)
            then (accepted s currentImageData, savePhoto (saving e) currentImageData)
            else (s, [])
        | None =>
            (accepted s currentImageData, savePhoto (saving e) currentImageData)
        end
    end.

(** Truthiness of a [number | null]. *)
Definition truthy (r : option Z) : bool :=
  match r with
  | Some id => negb (id =? 0)%Z
  | None => false
  end.

(** [window.clearInterval(id)] *)
Definition clearInterval (id : Z) (timers : list Z) : list Z :=
  filter (fun j => negb (j =? id)%Z) timers.

(** [toggleCapture]: the handler of the one button. *)
Definition toggleCapture (s : State) : State * list Event :=
  if isCapturing s then
    let s1 :=
      match captureIntervalRef s with
      | Some id =>
          if truthy (Some id)
          then {| isCapturing := isCapturing s; photoCount := photoCount s;
                  prevImageDataRef := prevImageDataRef s;
                  captureIntervalRef := None;
                  intervals := clearInterval id (intervals s);
                  lastHandle := lastHandle s |}
          else s
      | None => s
      end in
    ({| isCapturing := negb (isCapturing s); photoCount := photoCount s1;
        prevImageDataRef := prevImageDataRef s1;
        captureIntervalRef := captureIntervalRef s1;
        intervals := intervals s1; lastHandle := lastHandle s1 |},
     [Toast "Aufnahme beendet"%string false])
  else
    (* [window.setInterval(capturePhoto, 500)] hands out a fresh handle,
       an integer greater than zero *)
    let id := (lastHandle s + 1)%Z in
    ({| isCapturing := negb (isCapturing s); photoCount := 0;
        prevImageDataRef := None;
        captureIntervalRef := Some id;
        intervals := id :: intervals s; lastHandle := id |},
     [Toast "Aufnahme gestartet"%string false]).

(** The sampler as a labelled transition system: the user clicks the
    button, or an armed interval timer fires and runs one tick. *)
Inductive Action : Type :=
| Click
| Tick (id : Z) (e : Env).

Inductive step : State -> Action -> State -> Prop :=
| step_click s : step s Click (fst (toggleCapture s))
| step_tick s id e : In id (intervals s) -> step s (Tick id e) (fst (capturePhoto e s)).

Inductive run : State -> list Action -> State -> Prop :=
| run_nil s : run s [] s
| run_cons s a s1 acts s2 : step s a s1 -> run s1 acts s2 -> run s (a :: acts) s2.

Definition reachable (s : State) : Prop := exists acts, run initial acts s.

(** ** The specification's reading of the metric *)

(** Channel [c] (0 red, 1 green, 2 blue, 3 alpha) of pixel [p]. *)
Definition channel (im : ImageData) (p c : nat) : Z :=
  nth (4 * p + c) (data im) 0%Z.

(** A pixel is different when at least one of red, green and blue differs
    by more than 30 in absolute value. *)
Definition different (a b : ImageData) (p : nat) : bool :=
  (30 <? Z.abs (channel a p 0 - channel b p 0))%Z
  || (30 <? Z.abs (channel a p 1 - channel b p 1))%Z
  || (30 <? Z.abs (channel a p 2 - channel b p 2))%Z.

(** The different pixels among those of [a] that [b] has too. *)
Definition different_in_range (a b : ImageData) : list nat :=
  filter (fun p => (p <? pixels b) && different a b p) (seq 0 (pixels a)).

(** The different pixels of two frames of the same dimensions. *)
Definition different_pixels (a b : ImageData) : list nat :=
  filter (different a b) (seq 0 (pixels a)).

(** [(count / total) * 100] *)
Definition percentage (count total : nat) : JS.number :=
  JS.mul (JS.div (JS.of_nat count) (JS.of_nat total)) (JS.Finite 100).

(** The two frames agree everywhere but, possibly, on alpha entries. *)
Definition same_rgb (a a' : ImageData) : Prop :=
  length (data a) = length (data a') /\
  forall i, i mod 4 <> 3 -> get (data a) i = get (data a') i.

(** Every red entry moved up by 31, modulo 256. *)
Fixpoint shift_red_from (i : nat) (d : list Z) : list Z :=
  match d with
  | [] => []
  | v :: rest =>
      (if i mod 4 =? 0 then ((v + 31) mod 256)%Z else v) :: shift_red_from (S i) rest
  end.

Definition shift_red (a : ImageData) : ImageData :=
  {| width := width a; height := height a; data := shift_red_from 0 (data a) |}.

(** Every red entry moved up by 31 and held at 255, which is what writing
    [r + 31] into a [Uint8ClampedArray] stores. *)
Fixpoint shift_red_clamped_from (i : nat) (d : list Z) : list Z :=
  match d with
  | [] => []
  | v :: rest =>
      (if i mod 4 =? 0 then Z.min 255 (v + 31) else v) :: shift_red_clamped_from (S i) rest
  end.

Definition shift_red_clamped (a : ImageData) : ImageData :=
  {| width := width a; height := height a; data := shift_red_clamped_from 0 (data a) |}.

(** ** Sample frames and states *)

Definition frame_dark : ImageData :=
  {| width := 2; height := 1; data := [10; 10; 10; 255; 10; 10; 10; 255]%Z |}.

(** Differs from [frame_dark] in the red of its second pixel only. *)
Definition frame_half : ImageData :=
  {| width := 2; height := 1; data := [10; 10; 10; 255; 200; 10; 10; 255]%Z |}.

(** [frame_dark] with other alpha values. *)
Definition frame_dark_translucent : ImageData :=
  {| width := 2; height := 1; data := [10; 10; 10; 0; 10; 10; 10; 128]%Z |}.

Definition frame_small : ImageData :=
  {| width := 1; height := 1; data := [200; 10; 10; 255]%Z |}.

(** Red values on both sides of the wrap-around of [shift_red]. *)
Definition frame_reds : ImageData :=
  {| width := 3; height := 1;
     data := [0; 7; 7; 255; 224; 7; 7; 255; 250; 7; 7; 255]%Z |}.

Definition frame_empty : ImageData :=
  {| width := 0; height := 0; data := [] |}.

(** A session that has saved five frames, the last of them [frame_dark]. *)
Definition running5 : State :=
  {| isCapturing := true; photoCount := 5; prevImageDataRef := Some frame_dark;
     captureIntervalRef := Some 1%Z; intervals := [1%Z]; lastHandle := 1 |}.

(** A tick that obtains [frame] and whose save ends as [o]. *)
Definition tick_with (frame : ImageData) (o : SaveOutcome) : Env :=
  {| videoRef := true; canvasRef := true; context2d := true;
     imageData := Some frame; saving := o |}.

(** A tick that finds no video element yet. *)
Definition tick_no_video : Env :=
  {| videoRef := false; canvasRef := true; context2d := true;
     imageData := None; saving := SaveOk |}.

(** The same tick with another answer to its save. *)
Definition with_saving (o : SaveOutcome) (e : Env) : Env :=
  {| videoRef := videoRef e; canvasRef := canvasRef e; context2d := context2d e;
     imageData := imageData e; saving := o |}.

(** The state after the ticks of [envs], in order. *)
Definition ticks (envs : list Env) (s : State) : State :=
  fold_left (fun st e => fst (capturePhoto e st)) envs s.

(** What holds of every state the sampler can reach: handles are positive,
    and exactly the timer the ref names is armed, and only while capturing. *)
Definition timer_invariant (s : State) : Prop :=
  (0 <= lastHandle s)%Z /\
  if isCapturing s
  then exists id, (0 < id)%Z /\ captureIntervalRef s = Some id /\ intervals s = [id]
  else intervals s = [].

(** ** Further notions: counts, tolerance, runs of ticks *)

(** [diffCount] when the loop of [calculateImageDifference] is left. *)
Definition diffCount (current previous : ImageData) : nat :=
  loop (data current) (data previous) (length (data current)) 0 0.

(** No red, green or blue entry that both arrays have differs by more than
    30 from its counterpart. *)
Definition within_tolerance (d1 d2 : list Z) : Prop :=
  forall i x y, i mod 4 <> 3 ->
    get d1 i = Some x -> get d2 i = Some y -> (Z.abs (x - y) <= 30)%Z.

(** What the ticks of [envs], in order, leave behind outside the component. *)
Fixpoint tick_events (envs : list Env) (s : State) : list Event :=
  match envs with
  | [] => []
  | e :: rest => snd (capturePhoto e s) ++ tick_events rest (fst (capturePhoto e s))
  end.

(** The frames that were downloaded or written, in order. *)
Definition saved_frames (evs : list Event) : list ImageData :=
  flat_map (fun ev => match ev with Saved f => [f] | _ => [] end) evs.

(** Each frame scores at least 50 against the one before it, the first
    against [reference] when there is one. *)
Fixpoint differ_in_turn (reference : option ImageData) (frames : list ImageData) : Prop :=
  match frames with
  | [] => True
  | c :: rest =>
      match reference with
      | Some r => JS.geb (calculateImageDifference c r) (JS.Finite 50) = true
      | None => True
      end /\ differ_in_turn (Some c) rest
  end.

(** [frame_dark], every channel of its first pixel 30 higher. *)
Definition frame_dark_shade : ImageData :=
  {| width := 2; height := 1; data := [40; 40; 40; 255; 10; 10; 10; 255]%Z |}.

(** Five pixels, all unlike those of [frame_dark]. *)
Definition frame_wide : ImageData :=
  {| width := 5; height := 1;
     data := [200; 200; 200; 255; 200; 200; 200; 255; 200; 200; 200; 255;
              200; 200; 200; 255; 200; 200; 200; 255]%Z |}.

(** The toasts among the events, as title and variant. *)
Definition toasts (evs : list Event) : list (string * bool) :=
  flat_map (fun ev => match ev with Toast t d => [(t, d)] | _ => [] end) evs.

(** ** The texts of the toasts

    Every render of [Index] makes its own [capturePhoto], [savePhoto] and
    [toggleCapture], and these see the [photoCount] of that render.  The
    button runs the [toggleCapture] of the latest render; an interval timer
    keeps running the [capturePhoto] that [setInterval] was given. *)

Inductive Notice : Type :=
| FotoGespeichert (n : nat)     (* "Foto n wurde gespeichert." *)
| FotoFehler                    (* "Foto konnte nicht gespeichert werden." *)
| AufnahmeBeendet (n : nat)     (* "n Fotos aufgenommen." *)
| AufnahmeGestartet.            (* "Fotosequenz wird aufgenommen." *)

(** The component, and for every timer armed by it the [photoCount] that
    the [capturePhoto] given to [setInterval] sees. *)
Record Page : Type := mkPage {
  component : State;
  callbacks : list (Z * nat)
}.

Definition initial_page : Page := {| component := initial; callbacks := [] |}.

(** The toast of [savePhoto] in a render whose [photoCount] is [seen]. *)
Definition savePhoto_notice (seen : nat) (o : SaveOutcome) : list Notice :=
  match o with
  | SaveOk => [FotoGespeichert (seen + 1)]
  | SaveNoBlob => []
  | SaveThrows => [FotoFehler]
  | SaveCallbackThrows _ => []
  | SaveAsync p => if async_saved p then [FotoGespeichert (seen + 1)] else [FotoFehler]
  end.

(** The toasts of one tick run by the [capturePhoto] of that render. *)
Definition capturePhoto_notices (seen : nat) (e : Env) (s : State) : list Notice :=
  match currentFrame e with
  | None => []
  | Some currentImageData =>
      match prevImageDataRef s with
      | Some previous =>
          if JS.geb (calculateImageDifference currentImageData previous) (JS.Finite 50)
          then savePhoto_notice seen (saving e)
          else []
      | None => savePhoto_notice seen (saving e)
      end
  end.

(** A click on the button: [toggleCapture] of the latest render, which sees
    the [photoCount] of the state; on a start the new timer gets the
    [capturePhoto] of that same render. *)
Definition click (p : Page) : Page * list Notice :=
  let s := component p in
  let s' := fst (toggleCapture s) in
  if isCapturing s then
    ({| component := s';
        callbacks := filter (fun cb => existsb (Z.eqb (fst cb)) (intervals s'))
                       (callbacks p) |},
     [AufnahmeBeendet (photoCount s)])
  else
    ({| component := s';
        callbacks := ((lastHandle s + 1)%Z, photoCount s) :: callbacks p |},
     [AufnahmeGestartet]).

(** The timer with handle [id] fires. *)
Definition fire (id : Z) (e : Env) (p : Page) : Page * list Notice :=
  match find (fun cb => (fst cb =? id)%Z) (callbacks p) with
  | Some (_, seen) =>
      ({| component := fst (capturePhoto e (component p)); callbacks := callbacks p |},
       capturePhoto_notices seen e (component p))
  | None => (p, [])
  end.

Inductive PageAction : Type :=
| PageClick
| PageFire (id : Z) (e : Env).

Fixpoint page_run (acts : list PageAction) (p : Page) : Page * list Notice :=
  match acts with
  | [] => (p, [])
  | a :: rest =>
      let (p1, n1) := match a with
                      | PageClick => click p
                      | PageFire id e => fire id e p
                      end in
      let (p2, n2) := page_run rest p1 in
      (p2, n1 ++ n2)
  end.

(** Every "Foto n wurde gespeichert." shows one more than the total of the
    last "n Fotos aufgenommen." before it, and one more than [total] when
    there is none before it. *)
Fixpoint numbers_from_last_session (total : nat) (notices : list Notice) : Prop :=
  match notices with
  | [] => True
  | FotoGespeichert n :: rest => n = total + 1 /\ numbers_from_last_session total rest
  | AufnahmeBeendet m :: rest => numbers_from_last_session m rest
  | _ :: rest => numbers_from_last_session total rest
  end.

(** What holds of every page: the timers of the window and the callbacks
    agree, and the callback of a running session sees the total the session
    before it ended with. *)
Definition page_invariant (total : nat) (p : Page) : Prop :=
  timer_invariant (component p) /\
  if isCapturing (component p)
  then exists id, intervals (component p) = [id] /\ callbacks p = [(id, total)]
  else callbacks p = [] /\ photoCount (component p) = total.

(** ** The camera preview (second revision)

    What [initCamera], the two handlers it puts on the video element, and
    [tryPlayVideo] do to the state of the component. *)

Inductive CameraError : Type :=
| AccessFailed        (* "Zugriff auf die Kamera nicht möglich: ..." *)
| AutoplayBlocked     (* "Video konnte nicht abgespielt werden. ..." *)
| ManualPlayFailed.   (* "Kamera konnte nicht gestartet werden. ..." *)

Record Camera : Type := mkCamera {
  hasCameraPermission : bool;
  cameraError : option CameraError
}.

Inductive CameraEvent : Type :=
| InitCamera (granted : bool)        (* [initCamera]; [getUserMedia] resolves or not *)
| LoadedMetadata (played : option bool)
    (* [onloadedmetadata]: [play()] resolves, rejects, or returns no promise *)
| Playing                            (* [onplaying] *)
| TryPlayVideo (video paused played : bool).
    (* [tryPlayVideo]: the video element is there, it is paused, [play()] resolves *)

Definition camera_step (ev : CameraEvent) (c : Camera) : Camera * list Event :=
  match ev with
  | InitCamera true =>
      ({| hasCameraPermission := hasCameraPermission c; cameraError := None |}, [])
  | InitCamera false =>
      ({| hasCameraPermission := hasCameraPermission c;
          cameraError := Some AccessFailed |},
       [ConsoleError "Error accessing camera:"%string; Toast "Kamera-Fehler"%string true])
  | LoadedMetadata (Some true) =>
      ({| hasCameraPermission := true; cameraError := cameraError c |}, [])
  | LoadedMetadata (Some false) =>
      ({| hasCameraPermission := hasCameraPermission c;
          cameraError := Some AutoplayBlocked |},
       [ConsoleError "Error playing video:"%string;
        Toast "Tippe auf den Bildschirm"%string false])
  | LoadedMetadata None => (c, [])
  | Playing => ({| hasCameraPermission := true; cameraError := cameraError c |}, [])
  | TryPlayVideo video paused played =>
      if video && (paused || negb (hasCameraPermission c))
      then if played
           then ({| hasCameraPermission := true; cameraError := None |}, [])
           else ({| hasCameraPermission := hasCameraPermission c;
                    cameraError := Some ManualPlayFailed |},
                 [ConsoleError "Manual play attempt failed:"%string])
      else (c, [])
  end.

Definition camera_run (evs : list CameraEvent) (c : Camera) : Camera :=
  fold_left (fun st ev => fst (camera_step ev st)) evs c.

(** The button is [disabled={!hasCameraPermission}]; the overlay with the
    error text is rendered when [!hasCameraPermission]. *)
Definition button_enabled (c : Camera) : bool := hasCameraPermission c.
Definition overlay_text (c : Camera) : option (option CameraError) :=
  if hasCameraPermission c then None else Some (cameraError c).

(** ** Numbers: [same] is an equivalence that the operations respect *)

#[export] Instance same_Equivalence : Equivalence JS.same.
Proof.
  split.
  - intros [q|s|]; simpl; auto. reflexivity.
  - intros [q|s|] [r|t|]; simpl; auto. intro H; symmetry; exact H.
  - intros [q|s|] [r|t|] [u|v|]; simpl; try tauto; try congruence.
    intros H1 H2; rewrite H1; exact H2.
Qed.

#[export] Instance is_zero_Proper : Proper (Qeq ==> eq) JS.is_zero.
Proof. intros x y H. unfold JS.is_zero. rewrite H. reflexivity. Qed.

#[export] Instance is_neg_Proper : Proper (Qeq ==> eq) JS.is_neg.
Proof. intros x y H. unfold JS.is_neg. rewrite H. reflexivity. Qed.

#[export] Instance div_Proper : Proper (JS.same ==> JS.same ==> JS.same) JS.div.
Proof.
  intros [x|s|] [x'|s'|] Hx [y|t|] [y'|t'|] Hy; cbn [JS.same JS.div] in *;
    try tauto; subst; try reflexivity.
  - rewrite <- (is_zero_Proper _ _ Hx), <- (is_zero_Proper _ _ Hy),
      <- (is_neg_Proper _ _ Hx).
    destruct (JS.is_zero y); [destruct (JS.is_zero x)|]; cbn [JS.same]; auto.
    rewrite Hx, Hy. reflexivity.
  - rewrite (is_neg_Proper _ _ Hy). reflexivity.
Qed.

#[export] Instance mul_Proper : Proper (JS.same ==> JS.same ==> JS.same) JS.mul.
Proof.
  intros [x|s|] [x'|s'|] Hx [y|t|] [y'|t'|] Hy; cbn [JS.same JS.mul] in *;
    try tauto; subst; try reflexivity.
  - rewrite Hx, Hy. reflexivity.
  - rewrite <- (is_zero_Proper _ _ Hx), <- (is_neg_Proper _ _ Hx).
    destruct (JS.is_zero x); cbn [JS.same]; auto.
  - rewrite <- (is_zero_Proper _ _ Hy), <- (is_neg_Proper _ _ Hy).
    destruct (JS.is_zero y); cbn [JS.same]; auto.
Qed.

#[export] Instance geb_Proper : Proper (JS.same ==> JS.same ==> eq) JS.geb.
Proof.
  intros [x|s|] [x'|s'|] Hx [y|t|] [y'|t'|] Hy; cbn [JS.same JS.div JS.mul JS.geb] in *;
    try tauto; subst; try reflexivity.
  rewrite Hx, Hy. reflexivity.
Qed.

#[export] Instance within_Proper lo hi : Proper (JS.same ==> iff) (JS.within lo hi).
Proof.
  intros [x|s|] [x'|s'|] Hx; cbn [JS.same JS.within] in *; try tauto.
  rewrite Hx. tauto.
Qed.

(** [data1.length / 4] is the number of pixels when the length is a
    multiple of four. *)
Lemma totalPixels_same n :
  JS.same (JS.div (JS.of_nat (4 * n)) (JS.Finite 4)) (JS.of_nat n).
Proof.
  unfold JS.of_nat, JS.div.
  change (JS.is_zero 4) with false. cbv iota. cbn [JS.same].
  unfold Qeq, Qdiv, Qmult, Qinv, inject_Z. cbn [Qnum Qden].
  change (Z.pos (1 * 4)) with 4%Z. lia.
Qed.

(** ** The loop counts the pixels whose condition holds *)

Lemma loop_fuel data1 data2 fuel1 : forall fuel2 i acc,
  length data1 - i <= fuel1 -> length data1 - i <= fuel2 ->
  loop data1 data2 fuel1 i acc = loop data1 data2 fuel2 i acc.
Proof.
  induction fuel1 as [|f1 IH]; intros [|f2] i acc H1 H2; cbn [loop];
    destruct (Nat.ltb_spec i (length data1)); try reflexivity; try lia.
  apply IH; lia.
Qed.

Lemma loop_count data1 data2 n (Hlen : length data1 = 4 * n) : forall m p fuel acc,
  p + m = n -> m <= fuel ->
  loop data1 data2 fuel (4 * p) acc =
  acc + length (filter (fun q => pixel_differs data1 data2 (4 * q)) (seq p m)).
Proof.
  induction m as [|m IH]; intros p fuel acc Hp Hfuel.
  - cbn [seq filter length]. destruct fuel; cbn [loop]; [lia|].
    destruct (Nat.ltb_spec (4 * p) (length data1)); lia.
  - destruct fuel as [|fuel]; [lia|]. cbn [loop seq filter].
    destruct (Nat.ltb_spec (4 * p) (length data1)); [|lia].
    replace (4 * p + 4) with (4 * S p) by lia.
    rewrite IH by lia.
    destruct (pixel_differs data1 data2 (4 * p)); cbn [length]; lia.
Qed.

(** The count the function divides, for a frame whose data holds [n] whole
    pixels. *)
Lemma diffCount_filter data1 data2 n :
  length data1 = 4 * n ->
  loop data1 data2 (length data1) 0 0 =
  length (filter (fun q => pixel_differs data1 data2 (4 * q)) (seq 0 n)).
Proof.
  intro Hlen.
  pose proof (loop_count data1 data2 n Hlen n 0 (length data1) 0) as H.
  rewrite Nat.mul_0_r in H. apply H; lia.
Qed.

Lemma filter_length_le {A} (f : A -> bool) l : length (filter f l) <= length l.
Proof.
  induction l as [|x l IH]; cbn [filter length]; [lia|].
  destruct (f x); cbn [length]; lia.
Qed.

Lemma wf_length im : wf_ImageData im = true -> length (data im) = 4 * pixels im.
Proof.
  unfold wf_ImageData, pixels. intro H.
  apply andb_true_iff in H as [H _]. apply Nat.eqb_eq in H. exact H.
Qed.

Lemma wf_bytes im i v :
  wf_ImageData im = true -> get (data im) i = Some v -> (0 <= v <= 255)%Z.
Proof.
  unfold wf_ImageData, get. intros H Hget.
  apply andb_true_iff in H as [_ H]. rewrite forallb_forall in H.
  apply nth_error_In in Hget. apply H in Hget. unfold is_byte in Hget. lia.
Qed.

(** The score as a percentage of a count of loop conditions. *)
Lemma score_filter current previous n :
  length (data current) = 4 * n ->
  JS.same (calculateImageDifference current previous)
    (percentage
       (length (filter (fun q => pixel_differs (data current) (data previous) (4 * q))
                  (seq 0 n))) n).
Proof.
  intro Hlen. unfold calculateImageDifference, percentage.
  rewrite (diffCount_filter _ _ n Hlen). rewrite Hlen.
  rewrite (totalPixels_same n). reflexivity.
Qed.

(** ** The loop condition against the specification's [different] *)

Lemma get_channel im p c :
  length (data im) = 4 * pixels im -> p < pixels im -> c < 4 ->
  get (data im) (4 * p + c) = Some (channel im p c).
Proof.
  intros Hlen Hp Hc. unfold get, channel.
  apply nth_error_nth'. lia.
Qed.

Lemma get_past_end im p c :
  length (data im) = 4 * pixels im -> pixels im <= p ->
  get (data im) (4 * p + c) = None.
Proof.
  intros Hlen Hp. unfold get. apply nth_error_None. lia.
Qed.

Lemma abs_diff_gt30_undefined a : abs_diff_gt30 a None = false.
Proof. destruct a; reflexivity. Qed.

Lemma abs_diff_gt30_sym a b : abs_diff_gt30 a b = abs_diff_gt30 b a.
Proof.
  destruct a as [x|], b as [y|]; cbn [abs_diff_gt30]; try reflexivity.
  f_equal. lia.
Qed.

Lemma pixel_differs_sym data1 data2 i :
  pixel_differs data1 data2 i = pixel_differs data2 data1 i.
Proof.
  unfold pixel_differs.
  rewrite (abs_diff_gt30_sym (get data1 i)), (abs_diff_gt30_sym (get data1 (i + 1))),
    (abs_diff_gt30_sym (get data1 (i + 2))).
  reflexivity.
Qed.

Lemma pixel_differs_in_range a b p :
  length (data a) = 4 * pixels a -> length (data b) = 4 * pixels b ->
  p < pixels a -> p < pixels b ->
  pixel_differs (data a) (data b) (4 * p) = different a b p.
Proof.
  intros Ha Hb Hpa Hpb. unfold pixel_differs, different.
  replace (get (data a) (4 * p)) with (get (data a) (4 * p + 0)) by (f_equal; lia).
  replace (get (data b) (4 * p)) with (get (data b) (4 * p + 0)) by (f_equal; lia).
  rewrite !get_channel by (assumption || lia).
  reflexivity.
Qed.

Lemma pixel_differs_past_end data1 b p :
  length (data b) = 4 * pixels b -> pixels b <= p ->
  pixel_differs data1 (data b) (4 * p) = false.
Proof.
  intros Hb Hp. unfold pixel_differs.
  replace (get (data b) (4 * p)) with (get (data b) (4 * p + 0)) by (f_equal; lia).
  rewrite !get_past_end by assumption.
  rewrite !abs_diff_gt30_undefined. reflexivity.
Qed.

(** Two runs of the loop agree when their conditions agree at the indices
    the loop visits. *)
Lemma loop_ext data1 data2 data1' data2' :
  length data1 = length data1' ->
  (forall i, i mod 4 = 0 -> pixel_differs data1 data2 i = pixel_differs data1' data2' i) ->
  forall fuel i acc, i mod 4 = 0 ->
  loop data1 data2 fuel i acc = loop data1' data2' fuel i acc.
Proof.
  intros Hlen Hext. induction fuel as [|fuel IH]; intros i acc Hi; cbn [loop].
  - reflexivity.
  - rewrite <- Hlen, (Hext i Hi).
    destruct (i <? length data1); [|reflexivity].
    apply IH. replace (i + 4) with (i + 1 * 4) by lia.
    rewrite Nat.Div0.mod_add. exact Hi.
Qed.

(** ** Percentages *)

Lemma percentage_within count total :
  count <= total -> 0 < total -> JS.within 0 100 (percentage count total).
Proof.
  intros Hle Hpos. unfold percentage, JS.of_nat, JS.div, JS.is_zero.
  destruct (Qeq_bool (inject_Z (Z.of_nat total)) 0) eqn:E.
  - apply Qeq_bool_eq in E. unfold Qeq, inject_Z in E. cbn [Qnum Qden] in E. lia.
  - cbn [JS.mul JS.within].
    assert (H0 : (0 <= inject_Z (Z.of_nat count))%Q)
      by (unfold Qle, inject_Z; cbn [Qnum Qden]; lia).
    assert (Ht : (0 < inject_Z (Z.of_nat total))%Q)
      by (unfold Qlt, inject_Z; cbn [Qnum Qden]; lia).
    assert (Hc : (inject_Z (Z.of_nat count) <= inject_Z (Z.of_nat total))%Q)
      by (unfold Qle, inject_Z; cbn [Qnum Qden]; lia).
    assert (Hq0 : (0 <= inject_Z (Z.of_nat count) / inject_Z (Z.of_nat total))%Q)
      by (apply Qle_shift_div_l; [exact Ht | rewrite Qmult_0_l; exact H0]).
    assert (Hq1 : (inject_Z (Z.of_nat count) / inject_Z (Z.of_nat total) <= 1)%Q)
      by (apply Qle_shift_div_r; [exact Ht | rewrite Qmult_1_l; exact Hc]).
    split; nra.
Qed.

Lemma percentage_all total :
  0 < total -> JS.same (percentage total total) (JS.Finite 100).
Proof.
  intro Hpos. unfold percentage, JS.of_nat, JS.div, JS.is_zero.
  destruct (Qeq_bool (inject_Z (Z.of_nat total)) 0) eqn:E.
  - apply Qeq_bool_eq in E. unfold Qeq, inject_Z in E. cbn [Qnum Qden] in E. lia.
  - cbn [JS.mul JS.same]. apply Qeq_bool_neq in E. field. exact E.
Qed.

Lemma filter_all {A} (f : A -> bool) l :
  (forall x, In x l -> f x = true) -> filter f l = l.
Proof.
  induction l as [|x l IH]; intro H; cbn [filter]; [reflexivity|].
  rewrite (H x (or_introl eq_refl)). f_equal. apply IH.
  intros y Hy. apply H. right. exact Hy.
Qed.

(** ** Shifting red *)

Lemma get_shift_red_from d : forall k i,
  get (shift_red_from k d) i =
  option_map (fun v => if (k + i) mod 4 =? 0 then ((v + 31) mod 256)%Z else v) (get d i).
Proof.
  unfold get. induction d as [|v d IH]; intros k [|i]; cbn [shift_red_from nth_error option_map];
    try reflexivity.
  - rewrite Nat.add_0_r. reflexivity.
  - rewrite IH. replace (S k + i) with (k + S i) by lia. reflexivity.
Qed.

Lemma shift_red_from_length d : forall k, length (shift_red_from k d) = length d.
Proof. induction d as [|v d IH]; intro k; cbn [shift_red_from length]; auto. Qed.

Lemma shifted_byte_differs v :
  (0 <= v <= 255)%Z -> (30 <? Z.abs (v - (v + 31) mod 256))%Z = true.
Proof.
  intro Hv. apply Z.ltb_lt.
  destruct (Z_lt_dec (v + 31) 256) as [Hs|Hs].
  - rewrite Z.mod_small by lia. lia.
  - replace ((v + 31) mod 256)%Z with (v + 31 - 256)%Z; [lia|].
    apply Z.mod_unique with (q := 1%Z); lia.
Qed.

(** ** The metric: the specification's properties *)

(** C2: for two frames of identical dimensions the score is the number of
    pixels at which red, green or blue differs by more than 30 in absolute
    value, divided by the number of pixels, times 100; and no alpha entry
    of either frame has any influence on it. *)
Theorem difference_score_formula (a b : ImageData) :
  wf_ImageData a = true -> wf_ImageData b = true ->
  width a = width b -> height a = height b ->
  JS.same (calculateImageDifference a b)
          (percentage (length (different_pixels a b)) (pixels a))
  /\ forall a' b', same_rgb a a' -> same_rgb b b' ->
       calculateImageDifference a' b' = calculateImageDifference a b.
Proof.
  intros Ha Hb Hw Hh.
  pose proof (wf_length a Ha) as Hla. pose proof (wf_length b Hb) as Hlb.
  assert (Hpix : pixels a = pixels b) by (unfold pixels; congruence).
  split.
  - rewrite (score_filter a b (pixels a) Hla). unfold different_pixels.
    erewrite filter_ext_in; [reflexivity|].
    intros p Hp. apply in_seq in Hp.
    apply pixel_differs_in_range; try assumption; lia.
  - intros a' b' [Hlen Hrgb] [Hlen' Hrgb'].
    unfold calculateImageDifference. rewrite <- Hlen.
    f_equal. f_equal. f_equal.
    apply loop_ext; [symmetry; exact Hlen| |reflexivity].
    intros i Hi. unfold pixel_differs.
    assert (H1 : (i + 1) mod 4 <> 3)
      by (rewrite Nat.Div0.add_mod, Hi; cbn; discriminate).
    assert (H2 : (i + 2) mod 4 <> 3)
      by (rewrite Nat.Div0.add_mod, Hi; cbn; discriminate).
    assert (H0 : i mod 4 <> 3) by (rewrite Hi; discriminate).
    rewrite <- (Hrgb i H0), <- (Hrgb (i + 1) H1), <- (Hrgb (i + 2) H2).
    rewrite <- (Hrgb' i H0), <- (Hrgb' (i + 1) H1), <- (Hrgb' (i + 2) H2).
    reflexivity.
Qed.

Lemma difference_score_formula_witness :
  JS.same (calculateImageDifference frame_half frame_dark)
          (percentage (length (different_pixels frame_half frame_dark)) (pixels frame_half))
  /\ calculateImageDifference frame_half frame_dark_translucent
     = calculateImageDifference frame_half frame_dark.
Proof.
  destruct (difference_score_formula frame_half frame_dark
              eq_refl eq_refl eq_refl eq_refl) as [H1 H2].
  split; [exact H1|].
  apply H2.
  - split; [reflexivity | intros; reflexivity].
  - split; [reflexivity|].
    intros i Hi.
    do 8 (destruct i as [|i]; [first [reflexivity | exfalso; apply Hi; reflexivity]|]).
    reflexivity.
Defined.

(** C5, as stated: the score of a frame without pixels would have to lie
    between 0 and 100.  It is [0 / 0 * 100], that is NaN. *)
Lemma difference_score_empty_frame_not_in_range :
  calculateImageDifference frame_empty frame_dark = JS.NaN
  /\ ~ JS.within 0 100 (calculateImageDifference frame_empty frame_dark).
Proof. split; [reflexivity | intro H; exact H]. Qed.

(** C5, amended: when the current frame has at least one pixel, the score
    against any previous frame is a real number between 0 and 100, both
    included. *)
Theorem difference_score_in_range (current previous : ImageData) :
  wf_ImageData current = true -> 0 < pixels current ->
  JS.within 0 100 (calculateImageDifference current previous).
Proof.
  intros Hwf Hpos. pose proof (wf_length current Hwf) as Hlen.
  rewrite (score_filter current previous (pixels current) Hlen).
  apply percentage_within; [|exact Hpos].
  etransitivity; [apply filter_length_le|]. rewrite length_seq. apply Nat.le_refl.
Qed.

Lemma difference_score_in_range_witness :
  JS.within 0 100 (calculateImageDifference frame_half frame_small).
Proof.
  apply (difference_score_in_range frame_half frame_small); [reflexivity|].
  unfold pixels; cbn; lia.
Defined.

(** C6, as stated: the score would be the same in both orders for any two
    frames.  A two-pixel frame against a one-pixel frame scores 50 one way
    and 100 the other. *)
Lemma difference_score_not_symmetric :
  JS.same (calculateImageDifference frame_dark frame_small) (JS.Finite 50)
  /\ JS.same (calculateImageDifference frame_small frame_dark) (JS.Finite 100)
  /\ ~ JS.same (calculateImageDifference frame_dark frame_small)
               (calculateImageDifference frame_small frame_dark).
Proof.
  split; [reflexivity|]. split; [reflexivity|].
  vm_compute. discriminate.
Qed.

(** C6, amended: for two frames whose pixel data have the same length, as
    those of identical dimensions have, the score is the same in both
    orders. *)
Theorem difference_score_symmetric (a b : ImageData) :
  length (data a) = length (data b) ->
  calculateImageDifference a b = calculateImageDifference b a.
Proof.
  intro Hlen. unfold calculateImageDifference. rewrite <- Hlen.
  f_equal. f_equal. f_equal.
  apply loop_ext; [exact Hlen | | reflexivity].
  intros i _. apply pixel_differs_sym.
Qed.

Lemma difference_score_symmetric_witness :
  calculateImageDifference frame_half frame_dark
  = calculateImageDifference frame_dark frame_half.
Proof.
  apply (difference_score_symmetric frame_half frame_dark). reflexivity.
Defined.

(** C7, as stated: the shifted frame may hold its reds at 255 instead of
    wrapping them, and would still score 100.  Held at 255, a red of 250
    moves by 5 only: two of three pixels are counted, not all. *)
Lemma difference_score_shift_red_clamped_below_100 :
  wf_ImageData frame_reds = true
  /\ 0 < pixels frame_reds
  /\ diffCount frame_reds (shift_red_clamped frame_reds) = 2
  /\ ~ JS.same (calculateImageDifference frame_reds (shift_red_clamped frame_reds))
               (JS.Finite 100).
Proof.
  split; [reflexivity|]. split; [unfold pixels; cbn; lia|]. split; [reflexivity|].
  vm_compute. discriminate.
Qed.

(** C7, amended: shifting the red of every pixel of a frame with at least
    one pixel by 31 modulo 256, wrapping around, gives a frame whose score
    against the original is 100. *)
Theorem difference_score_shift_red (a : ImageData) :
  wf_ImageData a = true -> 0 < pixels a ->
  JS.same (calculateImageDifference a (shift_red a)) (JS.Finite 100).
Proof.
  intros Hwf Hpos. pose proof (wf_length a Hwf) as Hlen.
  rewrite (score_filter a (shift_red a) (pixels a) Hlen).
  rewrite filter_all.
  - rewrite length_seq. apply percentage_all. exact Hpos.
  - intros p Hp. apply in_seq in Hp.
    unfold pixel_differs. cbn [shift_red data].
    rewrite (get_shift_red_from (data a) 0 (4 * p)).
    replace (get (data a) (4 * p)) with (get (data a) (4 * p + 0)) by (f_equal; lia).
    pose proof (get_channel a p 0 Hlen ltac:(lia) ltac:(lia)) as Hget.
    rewrite Hget. cbn [option_map abs_diff_gt30].
    replace ((0 + 4 * p) mod 4) with 0
      by (replace (0 + 4 * p) with (0 + p * 4) by lia;
          rewrite Nat.Div0.mod_add; reflexivity).
    cbn [Nat.eqb].
    rewrite shifted_byte_differs by (eapply wf_bytes; eassumption).
    reflexivity.
Qed.

Lemma difference_score_shift_red_witness :
  JS.same (calculateImageDifference frame_reds (shift_red frame_reds)) (JS.Finite 100).
Proof.
  apply (difference_score_shift_red frame_reds); [reflexivity|].
  unfold pixels; cbn; lia.
Defined.

(** The shift of C7 has to wrap: held at 255 instead, a red of 250 moves by
    5 only and its pixel is not counted. *)
Remark shift_red_clamped_not_all_different :
  JS.same (calculateImageDifference frame_reds (shift_red_clamped frame_reds))
          (JS.Finite (200 # 3)).
Proof. reflexivity. Qed.

(** C10: for frames of any, also unequal, dimensions the loop ends within
    [data1.length] iterations; a pixel of the current frame that the
    previous frame does not have is never counted; and the score is the
    number of different pixels that both frames have, divided by the number
    of pixels of the current frame, times 100. *)
Theorem difference_score_unequal_dimensions (current previous : ImageData) :
  wf_ImageData current = true -> wf_ImageData previous = true ->
  (forall fuel, length (data current) <= fuel ->
     loop (data current) (data previous) fuel 0 0
     = loop (data current) (data previous) (length (data current)) 0 0)
  /\ (forall p, pixels previous <= p ->
        pixel_differs (data current) (data previous) (4 * p) = false)
  /\ JS.same (calculateImageDifference current previous)
             (percentage (length (different_in_range current previous))
                         (pixels current)).
Proof.
  intros Hc Hp.
  pose proof (wf_length current Hc) as Hlc. pose proof (wf_length previous Hp) as Hlp.
  split; [|split].
  - intros fuel Hfuel. apply loop_fuel; lia.
  - intros p Hout. apply pixel_differs_past_end; assumption.
  - rewrite (score_filter current previous (pixels current) Hlc).
    unfold different_in_range.
    erewrite filter_ext_in; [reflexivity|].
    intros p Hin. apply in_seq in Hin. cbv beta.
    destruct (Nat.ltb_spec p (pixels previous)); cbn [andb].
    + apply pixel_differs_in_range; try assumption; lia.
    + apply pixel_differs_past_end; assumption.
Qed.

Lemma difference_score_unequal_dimensions_witness :
  JS.same (calculateImageDifference frame_dark frame_small)
          (percentage (length (different_in_range frame_dark frame_small))
                      (pixels frame_dark)).
Proof.
  apply (difference_score_unequal_dimensions frame_dark frame_small); reflexivity.
Defined.

(** ** The tick *)

Lemma currentFrame_Some e c :
  currentFrame e = Some c ->
  videoRef e = true /\ canvasRef e = true /\ context2d e = true /\ imageData e = Some c.
Proof.
  unfold currentFrame.
  destruct (videoRef e), (canvasRef e), (context2d e); cbn; intro H;
    try discriminate; auto.
Qed.

Lemma tick_without_frame e s : currentFrame e = None -> capturePhoto e s = (s, []).
Proof.
  unfold currentFrame, capturePhoto.
  destruct (videoRef e), (canvasRef e), (context2d e); cbn; try reflexivity.
  intros ->. reflexivity.
Qed.

Lemma tick_without_reference e s c :
  currentFrame e = Some c -> prevImageDataRef s = None ->
  capturePhoto e s = (accepted s c, savePhoto (saving e) c).
Proof.
  intros He Hs. apply currentFrame_Some in He as (Hv & Hc & Hx & Hi).
  unfold capturePhoto. rewrite Hv, Hc, Hx, Hi, Hs. reflexivity.
Qed.

Lemma tick_with_reference e s c r :
  currentFrame e = Some c -> prevImageDataRef s = Some r ->
  capturePhoto e s =
  if JS.geb (calculateImageDifference c r) (JS.Finite 50)
  then (accepted s c, savePhoto (saving e) c)
  else (s, []).
Proof.
  intros He Hs. apply currentFrame_Some in He as (Hv & Hc & Hx & Hi).
  unfold capturePhoto. rewrite Hv, Hc, Hx, Hi, Hs. reflexivity.
Qed.

Lemma accepted_differs s c : accepted s c <> s.
Proof.
  intro H. apply (f_equal photoCount) in H. cbn in H. lia.
Qed.

Lemma ltb_not_geb a b : JS.ltb a b = true -> JS.geb a b = false.
Proof.
  destruct a as [x|[|]|], b as [y|[|]|]; cbn [JS.ltb JS.geb negb andb orb];
    try discriminate; auto.
  intro H. apply negb_true_iff in H. exact H.
Qed.

(** The parts of the state a tick never touches. *)
Lemma tick_keeps_session e s :
  isCapturing (fst (capturePhoto e s)) = isCapturing s
  /\ captureIntervalRef (fst (capturePhoto e s)) = captureIntervalRef s
  /\ intervals (fst (capturePhoto e s)) = intervals s
  /\ lastHandle (fst (capturePhoto e s)) = lastHandle s.
Proof.
  unfold capturePhoto.
  destruct (negb (videoRef e) || negb (canvasRef e)); [cbn; auto|].
  destruct (negb (context2d e)); [cbn; auto|].
  destruct (imageData e) as [c|]; [|cbn; auto].
  destruct (prevImageDataRef s) as [r|]; [|cbn; auto].
  destruct (JS.geb _ _); cbn; auto.
Qed.

Lemma ticks_without_frame envs : forall s,
  Forall (fun e => currentFrame e = None) envs -> ticks envs s = s.
Proof.
  induction envs as [|e envs IH]; intros s H; [reflexivity|].
  inversion H as [|? ? He Hrest]; subst. unfold ticks in *. cbn [fold_left].
  rewrite (tick_without_frame e s He). cbn [fst]. apply IH. exact Hrest.
Qed.

(** C1: in a tick that obtains a frame [c] while a reference frame [r]
    exists, the frame is accepted (handed to [savePhoto], the counter one
    higher, [c] the new reference) exactly when the score of [c] against [r]
    is at least 50; a score of exactly 50 accepts; a score below 50 leaves
    the state as it was and saves nothing. *)
Theorem tick_accepts_iff_score_at_least_50 (e : Env) (s : State) (c r : ImageData) :
  currentFrame e = Some c -> prevImageDataRef s = Some r ->
  (capturePhoto e s = (accepted s c, savePhoto (saving e) c)
   <-> JS.geb (calculateImageDifference c r) (JS.Finite 50) = true)
  /\ (JS.same (calculateImageDifference c r) (JS.Finite 50) ->
      capturePhoto e s = (accepted s c, savePhoto (saving e) c))
  /\ (JS.ltb (calculateImageDifference c r) (JS.Finite 50) = true ->
      capturePhoto e s = (s, []))
  /\ photoCount (accepted s c) = photoCount s + 1
  /\ prevImageDataRef (accepted s c) = Some c
  /\ In (Saved c) (savePhoto SaveOk c).
Proof.
  intros He Hs. pose proof (tick_with_reference e s c r He Hs) as Htick.
  repeat split.
  - intro Hacc. rewrite Hacc in Htick.
    destruct (JS.geb _ _); [reflexivity|].
    inversion Htick as [[Hstate Hev]]. exfalso. exact (accepted_differs s c Hstate).
  - intro Hge. rewrite Hge in Htick. exact Htick.
  - intro Hsame. rewrite Htick, (geb_Proper _ _ Hsame _ _ (reflexivity _)).
    reflexivity.
  - intro Hlt. rewrite Htick, (ltb_not_geb _ _ Hlt). reflexivity.
  - left. reflexivity.
Qed.

Lemma tick_accepts_iff_score_at_least_50_witness :
  capturePhoto (tick_with frame_half SaveOk) running5
  = (accepted running5 frame_half, savePhoto SaveOk frame_half).
Proof.
  apply (tick_accepts_iff_score_at_least_50
           (tick_with frame_half SaveOk) running5 frame_half frame_dark
           eq_refl eq_refl).
  reflexivity.
Defined.

(** C3, as stated: a tick whose save fails would leave the reference frame
    and the counter as they were.  The first tick of a session, with a save
    that throws, sets both. *)
Lemma persistence_failure_still_accepts :
  saving (tick_with frame_dark SaveThrows) = SaveThrows
  /\ photoCount (fst (toggleCapture initial)) = 0
  /\ photoCount (fst (capturePhoto (tick_with frame_dark SaveThrows)
                        (fst (toggleCapture initial)))) = 1
  /\ prevImageDataRef (fst (toggleCapture initial)) = None
  /\ prevImageDataRef (fst (capturePhoto (tick_with frame_dark SaveThrows)
                              (fst (toggleCapture initial)))) = Some frame_dark.
Proof. repeat split. Qed.

(** C3, amended: however the save of a tick ends, the session goes on
    (still capturing, the same timer armed), and the reference frame and the
    counter after the tick are those of the same tick with a save that
    succeeds: a frame the tick accepts becomes the reference frame and is
    counted whether or not it could be saved. *)
Theorem tick_state_ignores_persistence (e : Env) (s : State) (o : SaveOutcome) :
  fst (capturePhoto (with_saving o e) s)
  = fst (capturePhoto (with_saving SaveOk e) s)
  /\ isCapturing (fst (capturePhoto (with_saving o e) s)) = isCapturing s
  /\ captureIntervalRef (fst (capturePhoto (with_saving o e) s))
     = captureIntervalRef s
  /\ intervals (fst (capturePhoto (with_saving o e) s)) = intervals s.
Proof.
  pose proof (tick_keeps_session (with_saving o e) s) as (Hc & Hr & Hi & _).
  split; [|split; [exact Hc|split; [exact Hr|exact Hi]]].
  unfold capturePhoto, with_saving; cbn [videoRef canvasRef context2d imageData saving].
  destruct (negb (videoRef e) || negb (canvasRef e)); [reflexivity|].
  destruct (negb (context2d e)); [reflexivity|].
  destruct (imageData e) as [c|]; [|reflexivity].
  destruct (prevImageDataRef s) as [r|]; [|reflexivity].
  destruct (JS.geb _ _); reflexivity.
Qed.

(** C4: after [start], and after any ticks that obtained no frame, the
    first tick that obtains a frame accepts it whatever it shows: the frame
    is handed to [savePhoto], the counter is 1 and the frame is the
    reference. *)
Theorem first_tick_accepts (s : State) (skipped : list Env) (e : Env) (f : ImageData) :
  isCapturing s = false ->
  Forall (fun e' => currentFrame e' = None) skipped ->
  currentFrame e = Some f ->
  capturePhoto e (ticks skipped (fst (toggleCapture s)))
  = (accepted (ticks skipped (fst (toggleCapture s))) f, savePhoto (saving e) f)
  /\ photoCount (fst (capturePhoto e (ticks skipped (fst (toggleCapture s))))) = 1
  /\ prevImageDataRef (fst (capturePhoto e (ticks skipped (fst (toggleCapture s)))))
     = Some f
  /\ In (Saved f) (savePhoto SaveOk f).
Proof.
  intros Hidle Hskip He.
  rewrite (ticks_without_frame skipped _ Hskip).
  assert (Hnone : prevImageDataRef (fst (toggleCapture s)) = None)
    by (unfold toggleCapture; rewrite Hidle; reflexivity).
  assert (Hzero : photoCount (fst (toggleCapture s)) = 0)
    by (unfold toggleCapture; rewrite Hidle; reflexivity).
  rewrite (tick_without_reference e _ f He Hnone).
  cbn [fst accepted photoCount prevImageDataRef]. rewrite Hzero.
  repeat split. left. reflexivity.
Qed.

Lemma first_tick_accepts_witness :
  photoCount
    (fst (capturePhoto (tick_with frame_dark SaveNoBlob)
            (ticks [tick_no_video; tick_no_video]
               (fst (toggleCapture (fst (toggleCapture running5))))))) = 1.
Proof.
  apply (first_tick_accepts (fst (toggleCapture running5))
           [tick_no_video; tick_no_video]
           (tick_with frame_dark SaveNoBlob) frame_dark eq_refl).
  - repeat constructor.
  - reflexivity.
Defined.

(** ** The session *)

(** C8: [stop] followed at once by [start] leaves a running session whose
    counter is 0 and which has no reference frame, whatever the session
    before had saved. *)
Theorem stop_then_start_resets (s : State) :
  isCapturing s = true ->
  isCapturing (fst (toggleCapture s)) = false
  /\ photoCount (fst (toggleCapture s)) = photoCount s
  /\ isCapturing (fst (toggleCapture (fst (toggleCapture s)))) = true
  /\ photoCount (fst (toggleCapture (fst (toggleCapture s)))) = 0
  /\ prevImageDataRef (fst (toggleCapture (fst (toggleCapture s)))) = None.
Proof.
  intro Hrun.
  assert (Hstop : isCapturing (fst (toggleCapture s)) = false)
    by (unfold toggleCapture; rewrite Hrun; reflexivity).
  split; [exact Hstop|]. split.
  - unfold toggleCapture. rewrite Hrun.
    destruct (captureIntervalRef s) as [id|]; [destruct (truthy (Some id))|];
      reflexivity.
  - unfold toggleCapture at 1 3 5. rewrite Hstop. repeat split.
Qed.

Lemma stop_then_start_resets_witness :
  photoCount running5 = 5
  /\ photoCount (fst (toggleCapture (fst (toggleCapture running5)))) = 0
  /\ prevImageDataRef (fst (toggleCapture (fst (toggleCapture running5)))) = None.
Proof.
  split; [reflexivity|].
  apply (stop_then_start_resets running5). reflexivity.
Defined.

Lemma timer_invariant_initial : timer_invariant initial.
Proof. unfold timer_invariant, initial; cbn. split; [lia | reflexivity]. Qed.

Lemma clearInterval_only id : clearInterval id [id] = [].
Proof. unfold clearInterval. cbn [filter]. rewrite Z.eqb_refl. reflexivity. Qed.

Lemma timer_invariant_click s :
  timer_invariant s -> timer_invariant (fst (toggleCapture s)).
Proof.
  unfold timer_invariant, toggleCapture. intros [Hlast Hinv].
  destruct (isCapturing s); cbn [negb fst].
  - destruct Hinv as (id & Hpos & Href & Harmed). rewrite Href.
    assert (Ht : truthy (Some id) = true)
      by (unfold truthy; apply negb_true_iff, Z.eqb_neq; lia).
    rewrite Ht. cbn [isCapturing intervals lastHandle].
    rewrite Harmed, clearInterval_only. split; [exact Hlast | reflexivity].
  - cbn [isCapturing intervals lastHandle captureIntervalRef].
    split; [lia|]. exists (lastHandle s + 1)%Z. rewrite Hinv.
    repeat split. lia.
Qed.

Lemma timer_invariant_tick e s :
  timer_invariant s -> timer_invariant (fst (capturePhoto e s)).
Proof.
  unfold timer_invariant.
  destruct (tick_keeps_session e s) as (Hc & Hr & Hi & Hl).
  rewrite Hc, Hr, Hi, Hl. auto.
Qed.

Lemma timer_invariant_run s acts s' :
  run s acts s' -> timer_invariant s -> timer_invariant s'.
Proof.
  induction 1 as [|s a s1 acts s2 Hstep _ IH]; intro Hinv; [exact Hinv|].
  apply IH. destruct Hstep.
  - apply timer_invariant_click. exact Hinv.
  - apply timer_invariant_tick. exact Hinv.
Qed.

Lemma timer_invariant_reachable s : reachable s -> timer_invariant s.
Proof.
  intros [acts Hrun].
  exact (timer_invariant_run _ _ _ Hrun timer_invariant_initial).
Qed.

(** Without an armed timer, the first thing to happen is a click. *)
Lemma run_unarmed s acts s' :
  run s acts s' -> intervals s = [] ->
  forall pre id e post, acts = pre ++ Tick id e :: post -> In Click pre.
Proof.
  intros Hrun Hnone pre id e post Hacts.
  destruct Hrun as [|s a s1 acts s2 Hstep Hrest].
  - destruct pre; discriminate.
  - destruct Hstep as [s|s id' e' Harmed].
    + destruct pre as [|a pre]; [discriminate|].
      inversion Hacts; subst. left. reflexivity.
    + rewrite Hnone in Harmed. destruct Harmed.
Qed.

(** C9: once [stop] has returned in a state the sampler can reach, no timer
    is armed and no tick can run; in every execution that goes on from
    there, a tick comes only after another click on the button. *)
Theorem no_tick_after_stop (s : State) :
  reachable s -> isCapturing s = true ->
  intervals (fst (toggleCapture s)) = []
  /\ captureIntervalRef (fst (toggleCapture s)) = None
  /\ (forall id e s', ~ step (fst (toggleCapture s)) (Tick id e) s')
  /\ (forall acts s', run (fst (toggleCapture s)) acts s' ->
      forall pre id e post, acts = pre ++ Tick id e :: post -> In Click pre).
Proof.
  intros Hreach Hrun.
  pose proof (timer_invariant_reachable s Hreach) as Hinv.
  pose proof (timer_invariant_click s Hinv) as Hstopped.
  assert (Hidle : isCapturing (fst (toggleCapture s)) = false)
    by (unfold toggleCapture; rewrite Hrun; reflexivity).
  assert (Hnone : intervals (fst (toggleCapture s)) = [])
    by (destruct Hstopped as [_ H]; rewrite Hidle in H; exact H).
  split; [exact Hnone|]. split; [|split].
  - destruct Hinv as [_ H]. rewrite Hrun in H. destruct H as (id & Hpos & Href & _).
    unfold toggleCapture. rewrite Hrun, Href.
    assert (Ht : truthy (Some id) = true)
      by (unfold truthy; apply negb_true_iff, Z.eqb_neq; lia).
    rewrite Ht. reflexivity.
  - intros id e s' Hstep. inversion Hstep as [|? ? ? Harmed]; subst.
    rewrite Hnone in Harmed. destruct Harmed.
  - intros acts s' Hexec. exact (run_unarmed _ _ _ Hexec Hnone).
Qed.

Lemma no_tick_after_stop_witness :
  intervals (fst (toggleCapture (fst (capturePhoto (tick_with frame_dark SaveOk)
                                        (fst (toggleCapture initial)))))) = [].
Proof.
  apply (no_tick_after_stop
           (fst (capturePhoto (tick_with frame_dark SaveOk) (fst (toggleCapture initial))))).
  - exists [Click; Tick 1%Z (tick_with frame_dark SaveOk)].
    eapply run_cons; [apply step_click|].
    eapply run_cons; [apply step_tick; left; reflexivity|].
    apply run_nil.
  - reflexivity.
Defined.

(** ** Further properties of the metric *)

Lemma loop_no_difference data1 data2 :
  (forall i, i mod 4 = 0 -> pixel_differs data1 data2 i = false) ->
  forall fuel i acc, i mod 4 = 0 -> loop data1 data2 fuel i acc = acc.
Proof.
  intros Hnone. induction fuel as [|fuel IH]; intros i acc Hi; cbn [loop].
  - reflexivity.
  - rewrite (Hnone i Hi). destruct (i <? length data1); [|reflexivity].
    apply IH. replace (i + 4) with (i + 1 * 4) by lia.
    rewrite Nat.Div0.mod_add. exact Hi.
Qed.

Lemma abs_diff_gt30_tolerated d1 d2 i :
  within_tolerance d1 d2 -> i mod 4 <> 3 ->
  abs_diff_gt30 (get d1 i) (get d2 i) = false.
Proof.
  intros Htol Hi.
  destruct (get d1 i) as [x|] eqn:E1, (get d2 i) as [y|] eqn:E2;
    cbn [abs_diff_gt30]; try reflexivity.
  apply Z.ltb_ge. exact (Htol i x y Hi E1 E2).
Qed.

Lemma pixel_differs_tolerated d1 d2 i :
  within_tolerance d1 d2 -> i mod 4 = 0 -> pixel_differs d1 d2 i = false.
Proof.
  intros Htol Hi. unfold pixel_differs.
  rewrite !abs_diff_gt30_tolerated; try assumption; try reflexivity.
  - rewrite Nat.Div0.add_mod, Hi. cbn. discriminate.
  - rewrite Nat.Div0.add_mod, Hi. cbn. discriminate.
  - rewrite Hi. discriminate.
Qed.

Lemma within_tolerance_refl d : within_tolerance d d.
Proof.
  intros i x y _ Hx Hy. rewrite Hx in Hy. injection Hy as <-.
  rewrite Z.sub_diag. cbn. lia.
Qed.

(** The score when the loop counts nothing. *)
Lemma score_of_no_difference current previous :
  diffCount current previous = 0 ->
  JS.geb (calculateImageDifference current previous) (JS.Finite 50) = false
  /\ (0 < length (data current) ->
      JS.same (calculateImageDifference current previous) (JS.Finite 0)).
Proof.
  unfold diffCount, calculateImageDifference. intros ->.
  unfold JS.of_nat. cbn [JS.div]. change (JS.is_zero 4) with false. cbv iota.
  cbn [JS.div]. change (JS.is_zero (inject_Z (Z.of_nat 0))) with true.
  destruct (JS.is_zero (inject_Z (Z.of_nat (length (data current))) / 4)) eqn:E.
  - cbn [JS.mul JS.geb JS.same]. split; [reflexivity|].
    intro Hpos. unfold JS.is_zero in E. apply Qeq_bool_eq in E.
    unfold Qeq, Qdiv, Qmult, Qinv, inject_Z in E. cbn [Qnum Qden] in E. lia.
  - cbn [JS.mul JS.geb JS.same].
    assert (Hz : (inject_Z (Z.of_nat 0)
                  / (inject_Z (Z.of_nat (length (data current))) / 4) * 100 == 0)%Q).
    { unfold Qdiv. change (inject_Z (Z.of_nat 0)) with 0%Q.
      rewrite Qmult_0_l. rewrite Qmult_0_l. reflexivity. }
    split.
    + rewrite (Qleb_comp _ _ (reflexivity 50%Q) _ _ Hz). reflexivity.
    + intros _. exact Hz.
Qed.

Lemma diffCount_tolerated current previous :
  within_tolerance (data current) (data previous) -> diffCount current previous = 0.
Proof.
  intro Htol. unfold diffCount. apply loop_no_difference; [|reflexivity].
  intros i Hi. apply pixel_differs_tolerated; assumption.
Qed.

(** X1: when no red, green or blue value of the current frame is more than
    30 away from its counterpart in the previous frame, the score of a
    frame with at least one entry is 0: a difference of exactly 30 is not
    counted. *)
Theorem difference_score_within_tolerance (current previous : ImageData) :
  0 < length (data current) ->
  within_tolerance (data current) (data previous) ->
  JS.same (calculateImageDifference current previous) (JS.Finite 0).
Proof.
  intros Hpos Htol.
  apply (score_of_no_difference current previous); [|exact Hpos].
  apply diffCount_tolerated. exact Htol.
Qed.

Lemma difference_score_within_tolerance_witness :
  JS.same (calculateImageDifference frame_dark_shade frame_dark) (JS.Finite 0).
Proof.
  apply (difference_score_within_tolerance frame_dark_shade frame_dark).
  - cbn. lia.
  - intros i x y _ Hx Hy.
    do 8 (destruct i as [|i];
          [cbn in Hx, Hy; injection Hx as <-; injection Hy as <-; cbn; lia|]).
    destruct i; discriminate.
Defined.

(** X2: a frame with at least one entry scores 0 against itself. *)
Theorem difference_score_identical_frames (a : ImageData) :
  0 < length (data a) ->
  JS.same (calculateImageDifference a a) (JS.Finite 0).
Proof.
  intro Hpos. apply (score_of_no_difference a a); [|exact Hpos].
  apply diffCount_tolerated. apply within_tolerance_refl.
Qed.

Lemma difference_score_identical_frames_witness :
  JS.same (calculateImageDifference frame_reds frame_reds) (JS.Finite 0).
Proof.
  apply (difference_score_identical_frames frame_reds). cbn. lia.
Defined.

(** A percentage reaches 50 exactly when the count is at least half of the
    total. *)
Lemma geb_percentage count total :
  0 < total ->
  JS.geb (percentage count total) (JS.Finite 50) = true <-> total <= 2 * count.
Proof.
  intro Hpos. unfold percentage, JS.of_nat, JS.div, JS.is_zero.
  destruct (Qeq_bool (inject_Z (Z.of_nat total)) 0) eqn:E.
  - apply Qeq_bool_eq in E. unfold Qeq, inject_Z in E. cbn [Qnum Qden] in E. lia.
  - cbn [JS.mul JS.geb]. rewrite Qle_bool_iff.
    unfold Qle, Qdiv, Qmult, Qinv, inject_Z. cbn [Qnum Qden].
    destruct (Z.of_nat total) as [|t|t] eqn:Et; try lia.
    cbn [Qnum Qden]. split; intro H; nia.
Qed.

(** X3: for a current frame with at least one pixel, the score reaches the
    threshold of 50 exactly when the loop has counted at least half of its
    pixels. *)
Theorem threshold_is_half_of_the_pixels (current previous : ImageData) :
  wf_ImageData current = true -> 0 < pixels current ->
  JS.geb (calculateImageDifference current previous) (JS.Finite 50) = true
  <-> pixels current <= 2 * diffCount current previous.
Proof.
  intros Hwf Hpos. pose proof (wf_length current Hwf) as Hlen.
  rewrite (geb_Proper _ _ (score_filter current previous (pixels current) Hlen)
             _ _ (reflexivity _)).
  unfold diffCount. rewrite (diffCount_filter _ _ (pixels current) Hlen).
  apply geb_percentage. exact Hpos.
Qed.

Lemma threshold_is_half_of_the_pixels_witness :
  JS.geb (calculateImageDifference frame_half frame_dark) (JS.Finite 50) = true
  <-> pixels frame_half <= 2 * diffCount frame_half frame_dark.
Proof.
  apply (threshold_is_half_of_the_pixels frame_half frame_dark); [reflexivity|].
  unfold pixels; cbn; lia.
Defined.

Lemma filter_below_length (f : nat -> bool) m : forall n a,
  length (filter (fun p => (p <? m) && f p) (seq a n)) <= m - a.
Proof.
  induction n as [|n IH]; intro a; cbn [seq filter length]; [lia|].
  specialize (IH (S a)).
  destruct (Nat.ltb_spec a m); cbn [andb]; [|lia].
  destruct (f a); cbn [length]; lia.
Qed.

(** The loop counts no more pixels than the previous frame has. *)
Lemma diffCount_le_previous current previous :
  wf_ImageData current = true -> wf_ImageData previous = true ->
  diffCount current previous <= pixels previous.
Proof.
  intros Hc Hp.
  pose proof (wf_length current Hc) as Hlc. pose proof (wf_length previous Hp) as Hlp.
  unfold diffCount. rewrite (diffCount_filter _ _ (pixels current) Hlc).
  erewrite filter_ext_in.
  - etransitivity; [apply (filter_below_length (different current previous)
                             (pixels previous) (pixels current) 0)|lia].
  - intros p Hin. apply in_seq in Hin. cbv beta.
    destruct (Nat.ltb_spec p (pixels previous)); cbn [andb].
    + apply pixel_differs_in_range; try assumption; lia.
    + apply pixel_differs_past_end; assumption.
Qed.

(** X4: once the current frame has more than twice the pixels of the
    reference frame, the tick rejects it whatever the two frames show: the
    state stays as it was and nothing is saved. *)
Theorem tick_rejects_after_resolution_jump (e : Env) (s : State) (c r : ImageData) :
  currentFrame e = Some c -> prevImageDataRef s = Some r ->
  wf_ImageData c = true -> wf_ImageData r = true ->
  2 * pixels r < pixels c ->
  capturePhoto e s = (s, []).
Proof.
  intros He Hs Hc Hr Hjump.
  rewrite (tick_with_reference e s c r He Hs).
  destruct (JS.geb (calculateImageDifference c r) (JS.Finite 50)) eqn:E; [|reflexivity].
  pose proof (wf_length c Hc) as Hlc.
  rewrite (geb_Proper _ _ (score_filter c r (pixels c) Hlc) _ _ (reflexivity _)) in E.
  apply geb_percentage in E; [|lia].
  pose proof (diffCount_le_previous c r Hc Hr) as Hle.
  unfold diffCount in Hle. rewrite (diffCount_filter _ _ (pixels c) Hlc) in Hle. lia.
Qed.

Lemma tick_rejects_after_resolution_jump_witness :
  capturePhoto (tick_with frame_wide SaveOk) running5 = (running5, []).
Proof.
  apply (tick_rejects_after_resolution_jump
           (tick_with frame_wide SaveOk) running5 frame_wide frame_dark
           eq_refl eq_refl eq_refl eq_refl).
  unfold pixels; cbn; lia.
Defined.

(** X5: a tick whose frame stays within the tolerance of 30 a channel of
    the reference frame, the reference frame itself included, changes
    nothing and saves nothing, for frames of any size. *)
Theorem tick_rejects_unchanged_scene (e : Env) (s : State) (c r : ImageData) :
  currentFrame e = Some c -> prevImageDataRef s = Some r ->
  within_tolerance (data c) (data r) ->
  capturePhoto e s = (s, []).
Proof.
  intros He Hs Htol.
  rewrite (tick_with_reference e s c r He Hs).
  destruct (score_of_no_difference c r (diffCount_tolerated c r Htol)) as [Hge _].
  rewrite Hge. reflexivity.
Qed.

Lemma tick_rejects_unchanged_scene_witness :
  capturePhoto (tick_with frame_dark SaveOk) running5 = (running5, []).
Proof.
  apply (tick_rejects_unchanged_scene
           (tick_with frame_dark SaveOk) running5 frame_dark frame_dark
           eq_refl eq_refl).
  intros i x y _ Hx Hy. rewrite Hx in Hy. injection Hy as <-.
  rewrite Z.sub_diag. cbn. lia.
Defined.

(** ** Runs of ticks *)

(** A tick either leaves everything as it was, or accepts the frame it
    obtained; and it accepts only without a reference frame or on a score of
    at least 50 against it. *)
Lemma tick_cases e s :
  capturePhoto e s = (s, [])
  \/ exists c, capturePhoto e s = (accepted s c, savePhoto (saving e) c)
       /\ match prevImageDataRef s with
          | Some r => JS.geb (calculateImageDifference c r) (JS.Finite 50) = true
          | None => True
          end.
Proof.
  unfold capturePhoto.
  destruct (negb (videoRef e) || negb (canvasRef e)); [left; reflexivity|].
  destruct (negb (context2d e)); [left; reflexivity|].
  destruct (imageData e) as [c|]; [|left; reflexivity].
  destruct (prevImageDataRef s) as [r|].
  - destruct (JS.geb _ _) eqn:E; [right|left; reflexivity].
    exists c. split; [reflexivity | exact E].
  - right. exists c. split; [reflexivity | exact I].
Qed.

Lemma saved_frames_app evs1 evs2 :
  saved_frames (evs1 ++ evs2) = saved_frames evs1 ++ saved_frames evs2.
Proof. unfold saved_frames. apply flat_map_app. Qed.

Lemma saved_frames_savePhoto o c : length (saved_frames (savePhoto o c)) <= 1.
Proof.
  destruct o as [| | |[|]|p]; cbn; try lia.
  unfold savePhoto_async.
  destruct (toDataURL p), (isNative p), (writeFile p), (getUri p), (fetchBlob p);
    cbn; lia.
Qed.

Lemma last_default {A} (l : list A) : forall y d d',
  last (y :: l) d = last (y :: l) d'.
Proof.
  induction l as [|z l IH]; intros y d d'; [reflexivity|].
  change (last (z :: l) d = last (z :: l) d'). apply IH.
Qed.

Lemma last_after_cons {A} (l : list A) x d : last l x = last (x :: l) d.
Proof.
  destruct l as [|y l]; [reflexivity|].
  change (last (y :: l) x = last (y :: l) d). apply last_default.
Qed.

(** X6: over any sequence of ticks the counter never goes down, and it goes
    up by at most one a tick. *)
Theorem counter_bounds (envs : list Env) (s : State) :
  photoCount s <= photoCount (ticks envs s)
  /\ photoCount (ticks envs s) <= photoCount s + length envs.
Proof.
  revert s. induction envs as [|e envs IH]; intro s.
  - cbn. lia.
  - change (ticks (e :: envs) s) with (ticks envs (fst (capturePhoto e s))).
    specialize (IH (fst (capturePhoto e s))). cbn [length].
    destruct (tick_cases e s) as [H|(c & H & _)]; rewrite H in *;
      cbn [fst accepted photoCount] in *; lia.
Qed.

(** X7: over any sequence of ticks the counter goes up by at least the
    number of frames that were in fact downloaded or written; a save that
    fails is counted all the same. *)
Theorem counter_covers_saved_frames (envs : list Env) (s : State) :
  photoCount s + length (saved_frames (tick_events envs s))
  <= photoCount (ticks envs s).
Proof.
  revert s. induction envs as [|e envs IH]; intro s.
  - cbn. lia.
  - change (ticks (e :: envs) s) with (ticks envs (fst (capturePhoto e s))).
    cbn [tick_events]. rewrite saved_frames_app, length_app.
    specialize (IH (fst (capturePhoto e s))).
    destruct (tick_cases e s) as [H|(c & H & _)]; rewrite H in *;
      cbn [fst snd accepted photoCount] in *.
    + cbn. lia.
    + pose proof (saved_frames_savePhoto (saving e) c). lia.
Qed.

(** X8: when no save fails, the counter goes up by exactly the number of
    frames saved, every saved frame scores at least 50 against the frame
    saved before it (the first against the reference frame the ticks began
    with), and the reference frame in the end is the last frame saved. *)
Theorem saved_frames_differ_in_turn (envs : list Env) (s : State) :
  Forall (fun e => saving e = SaveOk) envs ->
  photoCount (ticks envs s) = photoCount s + length (saved_frames (tick_events envs s))
  /\ differ_in_turn (prevImageDataRef s) (saved_frames (tick_events envs s))
  /\ prevImageDataRef (ticks envs s)
     = last (map Some (saved_frames (tick_events envs s))) (prevImageDataRef s).
Proof.
  revert s. induction envs as [|e envs IH]; intros s Hok.
  - cbn. repeat split. lia.
  - inversion Hok as [|? ? He Hrest]; subst.
    change (ticks (e :: envs) s) with (ticks envs (fst (capturePhoto e s))).
    cbn [tick_events]. rewrite saved_frames_app.
    specialize (IH (fst (capturePhoto e s)) Hrest).
    destruct (tick_cases e s) as [H|(c & H & Hscore)]; rewrite H in *;
      cbn [fst snd] in *.
    + cbn [saved_frames flat_map app]. exact IH.
    + rewrite He. cbn [savePhoto saved_frames flat_map app length map].
      cbn [accepted photoCount prevImageDataRef] in IH.
      destruct IH as (Hcount & Hturn & Hlast).
      split; [lia|]. split.
      * cbn [differ_in_turn]. split; [exact Hscore | exact Hturn].
      * rewrite Hlast. apply last_after_cons.
Qed.

Lemma saved_frames_differ_in_turn_witness :
  saved_frames
    (tick_events [tick_with frame_dark SaveOk; tick_with frame_dark_shade SaveOk;
                  tick_with frame_half SaveOk] (fst (toggleCapture initial)))
  = [frame_dark; frame_half]
  /\ differ_in_turn None [frame_dark; frame_half].
Proof.
  split; [reflexivity|].
  apply (saved_frames_differ_in_turn
           [tick_with frame_dark SaveOk; tick_with frame_dark_shade SaveOk;
            tick_with frame_half SaveOk] (fst (toggleCapture initial))).
  repeat constructor.
Defined.

(** ** Invariants of the session *)

(** What holds at the start and is kept by every click and every tick holds
    of every state the sampler reaches. *)
Lemma reachable_ind (P : State -> Prop) :
  P initial ->
  (forall s, P s -> P (fst (toggleCapture s))) ->
  (forall e s, P s -> P (fst (capturePhoto e s))) ->
  forall s, reachable s -> P s.
Proof.
  intros Hinit Hclick Htick s [acts Hrun].
  revert Hinit. generalize dependent initial.
  intros s0 Hrun. induction Hrun as [s|s a s1 acts s2 Hstep _ IH]; intro H0;
    [exact H0|].
  apply IH. destruct Hstep; auto.
Qed.

(** X9: in every state the sampler reaches there is a reference frame
    exactly when the counter is not 0. *)
Theorem reference_iff_counted (s : State) :
  reachable s -> (prevImageDataRef s = None <-> photoCount s = 0).
Proof.
  revert s. apply reachable_ind.
  - cbn. tauto.
  - intros s IH. unfold toggleCapture.
    destruct (isCapturing s); [|cbn; tauto].
    destruct (captureIntervalRef s) as [id|]; [destruct (truthy (Some id))|];
      cbn; exact IH.
  - intros e s IH.
    destruct (tick_cases e s) as [H|(c & H & _)]; rewrite H; cbn [fst]; [exact IH|].
    cbn [accepted prevImageDataRef photoCount]. split; [discriminate | lia].
Qed.

Lemma reference_iff_counted_witness :
  prevImageDataRef (fst (capturePhoto (tick_with frame_dark SaveThrows)
                           (fst (toggleCapture initial)))) = None
  <-> photoCount (fst (capturePhoto (tick_with frame_dark SaveThrows)
                         (fst (toggleCapture initial)))) = 0.
Proof.
  apply (reference_iff_counted
           (fst (capturePhoto (tick_with frame_dark SaveThrows)
                   (fst (toggleCapture initial))))).
  exists [Click; Tick 1%Z (tick_with frame_dark SaveThrows)].
  eapply run_cons; [apply step_click|].
  eapply run_cons; [apply step_tick; left; reflexivity|].
  apply run_nil.
Defined.

(** X10: in every state the sampler reaches, one interval timer is armed
    while it captures and none otherwise; an armed timer is the one whose
    handle [captureIntervalRef] holds, and that handle is positive. *)
Theorem one_timer_while_capturing (s : State) :
  reachable s ->
  length (intervals s) = (if isCapturing s then 1 else 0)
  /\ forall id, In id (intervals s) -> captureIntervalRef s = Some id /\ (0 < id)%Z.
Proof.
  intro Hreach. destruct (timer_invariant_reachable s Hreach) as [_ Hinv].
  destruct (isCapturing s).
  - destruct Hinv as (id & Hpos & Href & Harmed). rewrite Harmed. split; [reflexivity|].
    intros id' [<-|[]]. split; assumption.
  - rewrite Hinv. split; [reflexivity|]. intros id [].
Qed.

Lemma one_timer_while_capturing_witness :
  length (intervals (fst (toggleCapture (fst (toggleCapture (fst (toggleCapture initial)))))))
  = 1.
Proof.
  apply (one_timer_while_capturing
           (fst (toggleCapture (fst (toggleCapture (fst (toggleCapture initial))))))).
  exists [Click; Click; Click].
  eapply run_cons; [apply step_click|].
  eapply run_cons; [apply step_click|].
  eapply run_cons; [apply step_click|].
  apply run_nil.
Defined.

(** ** The second [savePhoto] *)

(** The one toast of the second [savePhoto]. *)
Lemma savePhoto_async_toast p frame :
  toasts (savePhoto_async p frame)
  = [if async_saved p then ("Foto gespeichert"%string, false)
     else ("Fehler"%string, true)].
Proof.
  unfold savePhoto_async, async_saved.
  destruct (toDataURL p), (isNative p), (writeFile p), (getUri p), (fetchBlob p);
    reflexivity.
Qed.

(** X11: every call of the second [savePhoto] shows exactly one toast, and
    it shows "Foto gespeichert" only when the frame was written or
    downloaded. *)
Theorem savePhoto_async_one_toast (p : Platform) (frame : ImageData) :
  length (toasts (savePhoto_async p frame)) = 1
  /\ (In (Toast "Foto gespeichert"%string false) (savePhoto_async p frame) ->
      In (Saved frame) (savePhoto_async p frame)).
Proof.
  unfold savePhoto_async.
  destruct (toDataURL p), (isNative p), (writeFile p), (getUri p), (fetchBlob p);
    cbn; (split; [reflexivity|]); intro H; auto;
    repeat (destruct H as [H|H]; try discriminate H); contradiction.
Qed.

Lemma savePhoto_async_one_toast_witness :
  In (Saved frame_dark)
     (savePhoto_async (mkPlatform true true true true false) frame_dark).
Proof.
  apply (savePhoto_async_one_toast (mkPlatform true true true true false) frame_dark).
  cbn. auto.
Defined.

(** X12: the second [savePhoto] stores the frame and still shows the error
    toast in one case only: on a native platform, when the file was written
    and [getUri] fails after it. *)
Theorem savePhoto_async_saved_but_failed (p : Platform) (frame : ImageData) :
  (In (Saved frame) (savePhoto_async p frame)
   /\ In (Toast "Fehler"%string true) (savePhoto_async p frame))
  <-> (toDataURL p = true /\ isNative p = true /\ writeFile p = true /\ getUri p = false).
Proof.
  unfold savePhoto_async.
  destruct (toDataURL p), (isNative p), (writeFile p), (getUri p), (fetchBlob p);
    cbn; split.
  all: try (intros (H1 & H2 & H3 & H4); try discriminate; split; auto 6; fail).
  all: intros [H1 H2].
  all: try (repeat split; reflexivity).
  all: exfalso;
    first [ clear - H1; repeat (destruct H1 as [H1|H1]; [discriminate H1|]); contradiction
          | clear - H2; repeat (destruct H2 as [H2|H2]; [discriminate H2|]); contradiction ].
Qed.

Lemma savePhoto_async_saved_but_failed_witness :
  In (Saved frame_dark)
     (savePhoto_async (mkPlatform true true true false true) frame_dark)
  /\ In (Toast "Fehler"%string true)
        (savePhoto_async (mkPlatform true true true false true) frame_dark).
Proof.
  apply (savePhoto_async_saved_but_failed
           (mkPlatform true true true false true) frame_dark).
  repeat split.
Defined.

(** ** The numbers in the toasts *)

Lemma capturePhoto_notices_cases seen e s :
  capturePhoto_notices seen e s = []
  \/ capturePhoto_notices seen e s = [FotoGespeichert (seen + 1)]
  \/ capturePhoto_notices seen e s = [FotoFehler].
Proof.
  unfold capturePhoto_notices.
  destruct (currentFrame e) as [c|]; [|auto].
  destruct (prevImageDataRef s) as [r|].
  - destruct (JS.geb _ _); [|auto].
    destruct (saving e) as [| | |clicked|p]; cbn; auto. destruct (async_saved p); auto.
  - destruct (saving e) as [| | |clicked|p]; cbn; auto. destruct (async_saved p); auto.
Qed.

Lemma page_run_cons a rest p :
  snd (page_run (a :: rest) p)
  = snd (match a with PageClick => click p | PageFire id e => fire id e p end)
    ++ snd (page_run rest
              (fst (match a with PageClick => click p | PageFire id e => fire id e p end))).
Proof.
  cbn [page_run].
  destruct (match a with PageClick => click p | PageFire id e => fire id e p end)
    as [p1 n1].
  cbn [fst snd]. destruct (page_run rest p1) as [p2 n2]. reflexivity.
Qed.

Lemma stop_keeps_counter s :
  isCapturing s = true -> photoCount (fst (toggleCapture s)) = photoCount s.
Proof.
  intro Hrun. unfold toggleCapture. rewrite Hrun.
  destruct (captureIntervalRef s) as [id|]; [destruct (truthy (Some id))|];
    reflexivity.
Qed.

Lemma page_invariant_click total p :
  page_invariant total p ->
  page_invariant (if isCapturing (component p) then photoCount (component p) else total)
                 (fst (click p)).
Proof.
  intros [Htimer Hpage]. unfold click, page_invariant.
  pose proof (timer_invariant_click _ Htimer) as Htimer'.
  destruct (isCapturing (component p)) eqn:Hcap; cbn [fst component callbacks].
  - split; [exact Htimer'|].
    assert (Hidle : isCapturing (fst (toggleCapture (component p))) = false)
      by (unfold toggleCapture; rewrite Hcap; reflexivity).
    destruct Htimer' as [_ Hnone]. rewrite Hidle in Hnone. rewrite Hidle, Hnone.
    split; [|apply stop_keeps_counter; exact Hcap].
    destruct Hpage as (id & _ & ->). reflexivity.
  - split; [exact Htimer'|].
    destruct Hpage as [Hnone Htotal]. destruct Htimer as [_ Hunarmed].
    rewrite Hcap in Hunarmed.
    unfold toggleCapture. rewrite Hcap. cbn [fst isCapturing intervals negb].
    exists (lastHandle (component p) + 1)%Z.
    rewrite Hunarmed, Hnone, Htotal. split; reflexivity.
Qed.

Lemma page_invariant_fire total id e p :
  page_invariant total p ->
  page_invariant total (fst (fire id e p))
  /\ (snd (fire id e p) = []
      \/ snd (fire id e p) = [FotoGespeichert (total + 1)]
      \/ snd (fire id e p) = [FotoFehler]).
Proof.
  intros [Htimer Hpage]. unfold fire.
  destruct (isCapturing (component p)) eqn:Hcap.
  - destruct Hpage as (id0 & Harmed & Hcb). rewrite Hcb. cbn [find fst].
    destruct (id0 =? id)%Z; cbn [fst snd].
    + split; [|apply capturePhoto_notices_cases].
      unfold page_invariant. cbn [component callbacks].
      split; [apply timer_invariant_tick; exact Htimer|].
      destruct (tick_keeps_session e (component p)) as (Hc & _ & Hi & _).
      rewrite Hc, Hcap, Hi. exists id0. split; [exact Harmed | reflexivity].
    + split; [|auto]. split; [exact Htimer|]. rewrite Hcap.
      exists id0. split; assumption.
  - destruct Hpage as [Hnone Htotal]. rewrite Hnone. cbn [find fst snd].
    split; [|auto]. split; [exact Htimer|]. rewrite Hcap. split; assumption.
Qed.

Lemma numbers_from_last_session_run acts : forall p total,
  page_invariant total p ->
  numbers_from_last_session total (snd (page_run acts p)).
Proof.
  induction acts as [|a acts IH]; intros p total Hinv; [exact I|].
  rewrite page_run_cons. destruct a as [|id e].
  - pose proof (page_invariant_click total p Hinv) as Hinv'.
    specialize (IH (fst (click p)) _ Hinv').
    unfold click in *. destruct (isCapturing (component p)); cbn [fst snd app] in *;
      cbn [numbers_from_last_session]; exact IH.
  - destruct (page_invariant_fire total id e p Hinv) as [Hinv' Hn].
    specialize (IH (fst (fire id e p)) total Hinv').
    destruct Hn as [-> | [-> | ->]]; cbn [app numbers_from_last_session]; auto.
Qed.

Lemma page_invariant_initial : page_invariant 0 initial_page.
Proof.
  split; [exact timer_invariant_initial|]. cbn. split; reflexivity.
Qed.

(** X13: however the button is clicked and the timers fire, every toast
    "Foto n wurde gespeichert." shows the same [n] throughout a session: one
    more than the total the session before ended with, and 1 in the first
    session; it does not count the photos of the session it appears in. *)
Theorem toast_number_is_from_last_session (acts : list PageAction) :
  numbers_from_last_session 0 (snd (page_run acts initial_page)).
Proof.
  apply numbers_from_last_session_run. exact page_invariant_initial.
Qed.

(** Two photos saved in a first session: both toasts say "Foto 1", the
    counter says 2. *)
Example toast_number_first_session :
  snd (page_run [PageClick; PageFire 1%Z (tick_with frame_dark SaveOk);
                 PageFire 1%Z (tick_with frame_half SaveOk); PageClick] initial_page)
  = [AufnahmeGestartet; FotoGespeichert 1; FotoGespeichert 1; AufnahmeBeendet 2].
Proof. reflexivity. Qed.

(** ** A frame is not saved twice in a row *)

(** X14: the tick that follows a tick with the very same frame and
    surroundings changes nothing and saves nothing, whether the first of the
    two accepted its frame or not. *)
Theorem tick_twice_saves_once (e : Env) (s : State) :
  capturePhoto e (fst (capturePhoto e s)) = (fst (capturePhoto e s), []).
Proof.
  destruct (currentFrame e) as [c|] eqn:He.
  - assert (Hagain : capturePhoto e (accepted s c) = (accepted s c, [])).
    { rewrite (tick_with_reference e (accepted s c) c c He eq_refl).
      destruct (score_of_no_difference c c
                  (diffCount_tolerated c c (within_tolerance_refl (data c))))
        as [Hge _].
      rewrite Hge. reflexivity. }
    destruct (prevImageDataRef s) as [r|] eqn:Hs.
    + rewrite (tick_with_reference e s c r He Hs).
      destruct (JS.geb (calculateImageDifference c r) (JS.Finite 50)) eqn:E;
        cbn [fst].
      * exact Hagain.
      * rewrite (tick_with_reference e s c r He Hs), E. reflexivity.
    + rewrite (tick_without_reference e s c He Hs). cbn [fst]. exact Hagain.
  - rewrite (tick_without_frame e s He). cbn [fst].
    apply tick_without_frame. exact He.
Qed.

(** ** The camera preview *)

Lemma camera_step_keeps_permission ev c :
  hasCameraPermission c = true -> hasCameraPermission (fst (camera_step ev c)) = true.
Proof.
  intro H. destruct ev as [[|]|[[|]|]| |video paused played]; cbn; auto.
  destruct (video && (paused || negb (hasCameraPermission c)));
    [destruct played|]; cbn; auto.
Qed.

(** X15: no handler of the camera preview takes the permission flag back:
    once the capture button is enabled it stays enabled and the overlay with
    the error text stays away, whatever happens later, a failed attempt to
    play included. *)
Theorem camera_permission_is_kept (evs : list CameraEvent) (c : Camera) :
  button_enabled c = true ->
  button_enabled (camera_run evs c) = true /\ overlay_text (camera_run evs c) = None.
Proof.
  unfold button_enabled, overlay_text, camera_run.
  revert c. induction evs as [|ev evs IH]; intros c H; cbn [fold_left].
  - rewrite H. auto.
  - apply IH. apply camera_step_keeps_permission. exact H.
Qed.

Lemma camera_permission_is_kept_witness :
  button_enabled
    (camera_run [TryPlayVideo true true false; InitCamera false; LoadedMetadata (Some false)]
       (mkCamera true None)) = true.
Proof.
  apply (camera_permission_is_kept
           [TryPlayVideo true true false; InitCamera false; LoadedMetadata (Some false)]
           (mkCamera true None)).
  reflexivity.
Defined.
